(** * Port-Sail-Calculation: the voyage timeline of [port-sail-calc.py]

    A shallow embedding of the script's pipeline

      dateStamp/timeStamp -> event_datetime -> sort_values
        -> shift(1) columns -> distance_travelled, duration_hours, stage

    and of its [haversine] function.

    Conventions of the embedding.
    - In the frame a Python/NumPy float is a real number or NaN:
      [float := option R], with [None] for NaN (which is also pandas'
      null).  This reading keeps NaN propagation and leaves rounding and
      infinities out; what is proved on it is stated for the frames the
      pipeline returns.
    - [haversine] is also given in binary64 ([B64.haversine], on Rocq's
      primitive floats with the C library's functions as a parameter),
      where rounding is what the machine does and [math.sqrt] can raise.
    - [math.sqrt] raises [ValueError] on a negative argument: fallible
      code returns [result].
    - A [datetime64[ns]] value is the integer count of nanoseconds since
      the Unix epoch ([Z]); NaT in a shifted column is [None].
    - A column is a list; row [i] of the frame is entry [i] of every
      column.
    - The logs modelled have a whole-number [dateStamp] and a [timeStamp]
      in every record, inside the [datetime64[ns]] range.  A blank stamp
      (which pandas turns into NaT and sorts last) and a stamp out of range
      (on which line 11 raises) are outside the model. *)

From Stdlib Require Import Reals Lra Lia ZArith QArith List String Bool.
From Stdlib Require Import Permutation Sorted.
From Stdlib Require Floats.
Import ListNotations.

Close Scope Q_scope.
Close Scope R_scope.
Close Scope Z_scope.

(* ================================================================= *)
(** ** Floats with NaN, and results that may raise *)

Definition float : Type := option R.

Definition NaN : float := None.

Definition fl (x : R) : float := Some x.

Definition lift1 (f : R -> R) (x : float) : float :=
  match x with
  | Some a => Some (f a)
  | None => NaN
  end.

Definition lift2 (f : R -> R -> R) (x y : float) : float :=
  match x, y with
  | Some a, Some b => Some (f a b)
  | _, _ => NaN
  end.

Declare Scope py_scope.
Delimit Scope py_scope with fl.
Bind Scope py_scope with float.

Notation "x + y" := (lift2 Rplus x y) : py_scope.
Notation "x - y" := (lift2 Rminus x y) : py_scope.
Notation "x * y" := (lift2 Rmult x y) : py_scope.
Notation "x / y" := (lift2 Rdiv x y) : py_scope.

(** [x ** 2] *)
Definition sq (x : float) : float := lift1 (fun a => (a ^ 2)%R) x.

(** [pd.notnull] on a scalar. *)
Definition notnull {A : Type} (x : option A) : bool :=
  match x with
  | Some _ => true
  | None => false
  end.

Inductive result (A : Type) : Type :=
| Ok (a : A)
| ValueError.

Arguments Ok {A} a.
Arguments ValueError {A}.

Definition bind {A B : Type} (m : result A) (k : A -> result B) : result B :=
  match m with
  | Ok a => k a
  | ValueError => ValueError
  end.

Notation "x <- m ;; k" := (bind m (fun x => k))
  (at level 61, m at next level, right associativity).

(* ================================================================= *)
(** ** [from math import radians, cos, sin, sqrt, atan2] *)

Module math.

(** [math.radians(x)] is [x * (pi / 180)]. *)
Definition radians (x : float) : float :=
  lift1 (fun d => (d * (PI / 180))%R) x.

Definition sin (x : float) : float := lift1 Rtrigo_def.sin x.

Definition cos (x : float) : float := lift1 Rtrigo_def.cos x.

(** [math.sqrt]: NaN goes through, a negative argument raises. *)
Definition sqrt (x : float) : result float :=
  match x with
  | None => Ok NaN
  | Some a => if Rle_dec 0 a then Ok (fl (R_sqrt.sqrt a)) else ValueError
  end.

(** The two-argument arctangent on the reals (the quadrant rule of C's
    [atan2], signed zeros apart). *)
Definition atan2R (y x : R) : R :=
  if Rlt_dec 0 x then atan (y / x)
  else if Rlt_dec x 0 then
    (if Rle_dec 0 y then atan (y / x) + PI else atan (y / x) - PI)
  else if Rlt_dec 0 y then PI / 2
  else if Rlt_dec y 0 then - (PI / 2)
  else 0.

Definition atan2 (y x : float) : float := lift2 atan2R y x.

End math.

(* ================================================================= *)
(** ** [haversine] (lines 17-24) *)

(** Earth radius in kilometers. *)
Definition R_earth : R := 6371.

(** The local [a] of [haversine], from the four degree arguments. *)
Definition haversine_a (lat1 lon1 lat2 lon2 : float) : float :=
  let lat1 := math.radians lat1 in
  let lon1 := math.radians lon1 in
  let lat2 := math.radians lat2 in
  let lon2 := math.radians lon2 in
  let dlat := (lat2 - lat1)%fl in
  let dlon := (lon2 - lon1)%fl in
  (sq (math.sin (dlat / fl 2)) +
   math.cos lat1 * math.cos lat2 * sq (math.sin (dlon / fl 2)))%fl.

Definition haversine (lat1 lon1 lat2 lon2 : float) : result float :=
  let a := haversine_a lat1 lon1 lat2 lon2 in
  sa <- math.sqrt a ;;
  sb <- math.sqrt (fl 1 - a)%fl ;;
  let c := (fl 2 * math.atan2 sa sb)%fl in
  Ok (fl R_earth * c)%fl.

(** The spec's wording of the same computation, on the reals. *)
Module Spec.

Definition to_rad (deg : R) : R := (deg * PI / 180)%R.

Definition a (lat1 lon1 lat2 lon2 : R) : R :=
  let phi1 := to_rad lat1 in
  let phi2 := to_rad lat2 in
  let dlat := (to_rad lat2 - to_rad lat1)%R in
  let dlon := (to_rad lon2 - to_rad lon1)%R in
  (Rsqr (Rtrigo_def.sin (dlat / 2))
   + Rtrigo_def.cos phi1 * Rtrigo_def.cos phi2
     * Rsqr (Rtrigo_def.sin (dlon / 2)))%R.

Definition c (lat1 lon1 lat2 lon2 : R) : R :=
  let a := a lat1 lon1 lat2 lon2 in
  (2 * math.atan2R (R_sqrt.sqrt a) (R_sqrt.sqrt (1 - a)))%R.

Definition distance (lat1 lon1 lat2 lon2 : R) : R :=
  (6371 * c lat1 lon1 lat2 lon2)%R.

End Spec.

(** The value [haversine] returns on floats: NaN as soon as an argument
    is NaN. *)
Definition haversine_value (lat1 lon1 lat2 lon2 : float) : float :=
  match lat1, lon1, lat2, lon2 with
  | Some a, Some b, Some c, Some d => fl (Spec.distance a b c d)
  | _, _, _, _ => NaN
  end.

(* ================================================================= *)
(** ** [haversine] in binary64

    The same lines 17-24 on IEEE binary64 numbers (Rocq's primitive
    floats).  The arithmetic is the machine's; [sin], [cos], [pow] and
    [atan2] are the C library's and come as a parameter. *)

Module B64.
Import Stdlib.Floats.Floats.

Definition f64 : Type := PrimFloat.float.

(** The C library behind the [math] module and behind [**]. *)
Record libm : Type := mk_libm {
  c_sin : f64 -> f64;
  c_cos : f64 -> f64;
  c_pow : f64 -> f64 -> f64;
  c_atan2 : f64 -> f64 -> f64
}.

Definition is_finite (x : f64) : bool :=
  negb (PrimFloat.is_nan x || PrimFloat.is_infinity x).

(** CPython's wrapper of a one-argument C function ([math_1], without
    overflow): a NaN result from a number, or an infinite result from a
    finite number, is a [ValueError]. *)
Definition math_1 (f : f64 -> f64) (x : f64) : result f64 :=
  let r := f x in
  if PrimFloat.is_nan r && negb (PrimFloat.is_nan x) then ValueError
  else if PrimFloat.is_infinity r && is_finite x then ValueError
  else Ok r.

(** CPython's wrapper of a two-argument C function ([math_2]), as far as
    [atan2] can take it: a NaN result from two numbers is a
    [ValueError]. *)
Definition math_2 (f : f64 -> f64 -> f64) (x y : f64) : result f64 :=
  let r := f x y in
  if PrimFloat.is_nan r && negb (PrimFloat.is_nan x || PrimFloat.is_nan y)
  then ValueError
  else Ok r.

(** [math.pi / 180], the constant of [math.radians]. *)
Definition degToRad : f64 := 0x1.1df46a2529d39p-6%float.

Definition radians (x : f64) : f64 := PrimFloat.mul x degToRad.

Definition sin (m : libm) : f64 -> result f64 := math_1 (c_sin m).

Definition cos (m : libm) : f64 -> result f64 := math_1 (c_cos m).

Definition sqrt : f64 -> result f64 := math_1 PrimFloat.sqrt.

Definition atan2 (m : libm) : f64 -> f64 -> result f64 :=
  math_2 (c_atan2 m).

(** [x ** 2]: the C library's [pow] (the special cases CPython answers
    itself are the values [pow] has there). *)
Definition sq (m : libm) (x : f64) : f64 := c_pow m x 2%float.

(** The local [a] of [haversine], in Python's order of evaluation. *)
Definition haversine_a (m : libm) (lat1 lon1 lat2 lon2 : f64) : result f64 :=
  let lat1 := radians lat1 in
  let lon1 := radians lon1 in
  let lat2 := radians lat2 in
  let lon2 := radians lon2 in
  let dlat := PrimFloat.sub lat2 lat1 in
  let dlon := PrimFloat.sub lon2 lon1 in
  s1 <- sin m (PrimFloat.div dlat 2%float) ;;
  c1 <- cos m lat1 ;;
  c2 <- cos m lat2 ;;
  s2 <- sin m (PrimFloat.div dlon 2%float) ;;
  Ok (PrimFloat.add (sq m s1)
        (PrimFloat.mul (PrimFloat.mul c1 c2) (sq m s2))).

Definition haversine (m : libm) (lat1 lon1 lat2 lon2 : f64) : result f64 :=
  a <- haversine_a m lat1 lon1 lat2 lon2 ;;
  sa <- sqrt a ;;
  sb <- sqrt (PrimFloat.sub 1%float a) ;;
  t <- atan2 m sa sb ;;
  let c := PrimFloat.mul 2%float t in
  Ok (PrimFloat.mul 6371%float c).

(** Two nearly antipodal points: (82 S, 180 W) and (82 N, 0 E). *)
Definition lat_south : f64 := (-82)%float.
Definition lon_west : f64 := (-180)%float.
Definition lat_north : f64 := 82%float.
Definition lon_zero : f64 := 0%float.

(** 82 degrees and 90 degrees in radians, as [radians] rounds them. *)
Definition rad_82 : f64 := 0x1.6e6127ff9d971p+0%float.
Definition rad_90 : f64 := 0x1.921fb54442d18p+0%float.

(** The binary64 numbers nearest to sin and cos of [rad_82] and to the
    square of the former: what the C library returns there. *)
Definition sin_82 : f64 := 0x1.fb046a930947ap-1%float.
Definition cos_82 : f64 := 0x1.1d06c968d9e1ap-3%float.
Definition sin_82_squared : f64 := 0x1.f6153f1af3dc1p-1%float.

(** The value [a] takes on the two points: one unit in the last place
    above 1. *)
Definition a_above_one : f64 := 0x1.0000000000001p+0%float.

(** What the trace asks of the C library. *)
Definition near_antipode_values (m : libm) : Prop :=
  c_sin m rad_82 = sin_82
  /\ c_cos m rad_82 = cos_82
  /\ c_cos m (PrimFloat.opp rad_82) = cos_82
  /\ c_sin m rad_90 = 1%float
  /\ c_pow m sin_82 2%float = sin_82_squared
  /\ c_pow m 1%float 2%float = 1%float.

(** A C library reduced to the values of the trace (NaN elsewhere). *)
Definition libm_near_antipode : libm :=
  mk_libm
    (fun x => if PrimFloat.eqb x rad_82 then sin_82
              else if PrimFloat.eqb x rad_90 then 1%float
              else PrimFloat.nan)
    (fun x => if PrimFloat.eqb (PrimFloat.abs x) rad_82 then cos_82
              else PrimFloat.nan)
    (fun x y => if PrimFloat.eqb x sin_82 then sin_82_squared
                else if PrimFloat.eqb x 1%float then 1%float
                else PrimFloat.nan)
    (fun _ _ => PrimFloat.nan).

End B64.

(* ================================================================= *)
(** ** Time stamps (line 11) *)

(** The units of [pd.to_datetime] / [pd.to_timedelta]. *)
Inductive time_unit : Type := ns | D.

Definition unit_ns (u : time_unit) : Z :=
  match u with
  | ns => 1
  | D => 86400000000000
  end%Z.

(** [Timestamp('1899-12-30')]: 25569 days before the Unix epoch. *)
Definition origin_1899_12_30 : Z := (- (25569 * 86400000000000))%Z.

(** [pd.to_datetime(arg, unit=unit, origin=origin)] on a number: [arg]
    counts [unit]s from [origin]; pandas' default unit, taken when the
    call passes none, is ['ns']. *)
Definition to_datetime (arg : Z) (unit : option time_unit) (origin : Z) : Z :=
  let u := match unit with Some u => u | None => ns end in
  (origin + arg * unit_ns u)%Z.

(** [pd.to_timedelta(arg, unit=unit)] on a fractional number: the count
    of nanoseconds, truncated toward zero.  The product is exact here;
    pandas first rounds the fraction of a day to 13 decimals and multiplies
    in binary64, which gives the same count on the fractions used below
    (0, 1/4, 1/2, 3/4) and may differ by a few nanoseconds elsewhere. *)
Definition to_timedelta (arg : Q) (unit : time_unit) : Z :=
  Z.quot (Qnum arg * unit_ns unit) (Zpos (Qden arg)).

(** One line of [voyages.csv]. *)
Module Raw.
Record t : Type := mk {
  dateStamp : Z;
  timeStamp : Q;
  lat : float;
  lon : float;
  event : option string
}.
End Raw.

(** [data['event_datetime'] = pd.to_datetime(data['dateStamp'],
    origin='1899-12-30') + pd.to_timedelta(data['timeStamp'], unit='D')] *)
Definition event_datetime_of (r : Raw.t) : Z :=
  (to_datetime (Raw.dateStamp r) None origin_1899_12_30
   + to_timedelta (Raw.timeStamp r) D)%Z.

(** The spec's wording: both stamps are offsets in days. *)
Definition spec_event_time (r : Raw.t) : Z :=
  (origin_1899_12_30 + Raw.dateStamp r * unit_ns D
   + to_timedelta (Raw.timeStamp r) D)%Z.

(** A row of [data] once [event_datetime] is set. *)
Module Row.
Record t : Type := mk {
  raw : Raw.t;
  event_datetime : Z
}.
Definition lat (r : t) : float := Raw.lat (raw r).
Definition lon (r : t) : float := Raw.lon (raw r).
Definition event (r : t) : option string := Raw.event (raw r).
End Row.

Definition with_event_datetime (r : Raw.t) : Row.t :=
  Row.mk r (event_datetime_of r).

(* ================================================================= *)
(** ** Sorting (line 14)

    [data.sort_values(by=['event_datetime'], inplace=True)] passes no
    [kind], so pandas sorts the single key with its default
    [kind='quicksort'].  pandas documents that rearrangement as ascending;
    only [kind='mergesort'] and [kind='stable'] are documented as stable.
    The pipeline therefore takes the sort as an argument that meets
    [ascending_sort]. *)

Definition by_event_datetime (a b : Row.t) : Prop :=
  (Row.event_datetime a <= Row.event_datetime b)%Z.

Record ascending_sort (sort_values : list Row.t -> list Row.t) : Prop := {
  sort_values_perm : forall l, Permutation l (sort_values l);
  sort_values_sorted : forall l, Sorted by_event_datetime (sort_values l)
}.

(** An insertion sort on [event_datetime], the instance of
    [ascending_sort] the examples run: [before a b] tells whether the new
    row [a] is put in front of [b]. *)
Fixpoint insert_row (before : Z -> Z -> bool) (x : Row.t) (l : list Row.t)
    : list Row.t :=
  match l with
  | [] => [x]
  | y :: l' =>
      if before (Row.event_datetime x) (Row.event_datetime y)
      then x :: y :: l'
      else y :: insert_row before x l'
  end.

Definition insertion_sort (before : Z -> Z -> bool) (l : list Row.t)
    : list Row.t :=
  fold_right (insert_row before) [] l.

Definition stable_sort : list Row.t -> list Row.t := insertion_sort Z.leb.

(* ================================================================= *)
(** ** Columns *)

(** [Series.shift(1)]: values move down one row, the first is null. *)
Definition shift {A : Type} (col : list (option A)) : list (option A) :=
  match col with
  | [] => []
  | _ :: _ => None :: removelast col
  end.

(** Element-wise operation on two columns of one frame. *)
Definition zip_with {A B C : Type} (f : A -> B -> C)
    (xs : list A) (ys : list B) : list C :=
  map (fun p => f (fst p) (snd p)) (combine xs ys).

(** [DataFrame.apply(f, axis=1)]: [f] on every row, in order; the first
    exception ends the call. *)
Fixpoint apply_rows {A B : Type} (f : A -> result B) (rows : list A)
    : result (list B) :=
  match rows with
  | [] => Ok []
  | r :: rows' =>
      y <- f r ;;
      ys <- apply_rows f rows' ;;
      Ok (y :: ys)
  end.

(** The lambda of lines 29-32, on the four cells of a row it reads. *)
Definition distance_lambda (row : Row.t * float * float) : result float :=
  let '(r, prev_lat, prev_lon) := row in
  if notnull prev_lat
  then haversine (Row.lat r) (Row.lon r) prev_lat prev_lon
  else Ok (fl 0).

(** [(event_datetime - prev_event_datetime).dt.total_seconds() / 3600.0] *)
Definition sub_datetime (t : Z) (p : option Z) : option Z :=
  match p with
  | Some p => Some (t - p)%Z
  | None => None
  end.

Definition total_seconds (td : option Z) : float :=
  match td with
  | Some n => fl (IZR n / 1000000000)
  | None => NaN
  end.

Definition duration_of (t : Z) (p : option Z) : float :=
  (total_seconds (sub_datetime t p) / fl 3600)%fl.

(** [column == 'label']: a null cell equals no label. *)
Definition cell_eq (x : option string) (label : string) : bool :=
  match x with
  | Some e => String.eqb e label
  | None => false
  end.

Definition np_where {A : Type} (c : bool) (x y : A) : A :=
  if c then x else y.

(** Lines 38-39. *)
Definition stage_of (event prev_event : option string) : string :=
  np_where (cell_eq event "SOSP" && cell_eq prev_event "EOSP") "At Sea"%string
    (np_where (cell_eq event "EOSP" && cell_eq prev_event "SOSP")
       "At Port"%string "Unknown"%string).

(* ================================================================= *)
(** ** The frame and the pipeline (lines 11-39) *)

Module DataFrame.
Record t : Type := mk {
  rows : list Row.t;
  prev_lat : list float;
  prev_lon : list float;
  distance_travelled : list float;
  prev_event : list (option string);
  prev_event_datetime : list (option Z);
  duration_hours : list float;
  stage : list string
}.
End DataFrame.

(** Lines 11-39.  An empty log (a CSV with a header only) has an
    object-typed [dateStamp] column, which [pd.to_datetime] with an
    [origin] refuses with a [ValueError]. *)
Definition pipeline (sort_values : list Row.t -> list Row.t)
    (voyages : list Raw.t) : result DataFrame.t :=
  match voyages with
  | [] => ValueError
  | _ :: _ =>
      let data := map with_event_datetime voyages in
      let data := sort_values data in
      let prev_lat := shift (map Row.lat data) in
      let prev_lon := shift (map Row.lon data) in
      distance_travelled <-
        apply_rows distance_lambda
          (combine (combine data prev_lat) prev_lon) ;;
      let prev_event := shift (map Row.event data) in
      let prev_event_datetime :=
        shift (map (fun r => Some (Row.event_datetime r)) data) in
      let duration_hours :=
        zip_with duration_of (map Row.event_datetime data)
          prev_event_datetime in
      let stage := zip_with stage_of (map Row.event data) prev_event in
      Ok (DataFrame.mk data prev_lat prev_lon distance_travelled
            prev_event prev_event_datetime duration_hours stage)
  end.

(** One row of the finished frame: the TimelineRecord of the spec. *)
Module Timeline.
Record t : Type := mk {
  event_datetime : Z;
  lat : float;
  lon : float;
  event : option string;
  prev_lat : float;
  prev_lon : float;
  distance_travelled : float;
  prev_event : option string;
  prev_event_datetime : option Z;
  duration_hours : float;
  stage : string
}.
End Timeline.

(** [df.iloc[i]] *)
Definition iloc (df : DataFrame.t) (i : nat) : option Timeline.t :=
  match nth_error (DataFrame.rows df) i,
        nth_error (DataFrame.prev_lat df) i,
        nth_error (DataFrame.prev_lon df) i,
        nth_error (DataFrame.distance_travelled df) i with
  | Some r, Some pla, Some plo, Some d =>
      match nth_error (DataFrame.prev_event df) i,
            nth_error (DataFrame.prev_event_datetime df) i,
            nth_error (DataFrame.duration_hours df) i,
            nth_error (DataFrame.stage df) i with
      | Some pe, Some pt, Some du, Some st =>
          Some (Timeline.mk (Row.event_datetime r) (Row.lat r) (Row.lon r)
                  (Row.event r) pla plo d pe pt du st)
      | _, _, _, _ => None
      end
  | _, _, _, _ => None
  end.

(* ================================================================= *)
(** ** The frame in closed form

    What the pipeline computes once [haversine] is known not to raise:
    the same columns, with [haversine_value] for the call. *)

Definition distance_value (row : Row.t * float * float) : float :=
  let '(r, prev_lat, prev_lon) := row in
  if notnull prev_lat
  then haversine_value (Row.lat r) (Row.lon r) prev_lat prev_lon
  else fl 0.

Definition enrich (data : list Row.t) : DataFrame.t :=
  let prev_lat := shift (map Row.lat data) in
  let prev_lon := shift (map Row.lon data) in
  let distance_travelled :=
    map distance_value (combine (combine data prev_lat) prev_lon) in
  let prev_event := shift (map Row.event data) in
  let prev_event_datetime :=
    shift (map (fun r => Some (Row.event_datetime r)) data) in
  let duration_hours :=
    zip_with duration_of (map Row.event_datetime data) prev_event_datetime in
  let stage := zip_with stage_of (map Row.event data) prev_event in
  DataFrame.mk data prev_lat prev_lon distance_travelled
    prev_event prev_event_datetime duration_hours stage.

(** The row before row [i]. *)
Definition pred_row (data : list Row.t) (i : nat) : option Row.t :=
  match i with
  | O => None
  | S j => nth_error data j
  end.

(** A cell of a shifted column, from the row before. *)
Definition prev_cell {A : Type} (f : Row.t -> option A) (prev : option Row.t)
    : option A :=
  match prev with
  | Some p => f p
  | None => None
  end.

(** Row [r] of the finished frame, given the row before it. *)
Definition timeline_record (prev : option Row.t) (r : Row.t) : Timeline.t :=
  let prev_lat := prev_cell Row.lat prev in
  let prev_lon := prev_cell Row.lon prev in
  let prev_event := prev_cell Row.event prev in
  let prev_event_datetime :=
    prev_cell (fun p => Some (Row.event_datetime p)) prev in
  Timeline.mk (Row.event_datetime r) (Row.lat r) (Row.lon r) (Row.event r)
    prev_lat prev_lon (distance_value (r, prev_lat, prev_lon))
    prev_event prev_event_datetime
    (duration_of (Row.event_datetime r) prev_event_datetime)
    (stage_of (Row.event r) prev_event).


(* ================================================================= *)
(** ** Sample logs *)

(** Three records, out of order; the last one has no latitude. *)
Definition sample_voyages : list Raw.t :=
  [ Raw.mk 45000 (1 # 2) (fl 1) (fl 1) (Some "SOSP"%string);
    Raw.mk 45000 (1 # 4) (fl 0) (fl 0) (Some "EOSP"%string);
    Raw.mk 45000 (3 # 4) NaN (fl 2) (Some "EOSP"%string) ].

Definition sample_frame : DataFrame.t :=
  enrich (stable_sort (map with_event_datetime sample_voyages)).

(** Its rows in time order, and the three records of its frame. *)
Definition row_a : Row.t :=
  with_event_datetime
    (Raw.mk 45000 (1 # 4) (fl 0) (fl 0) (Some "EOSP"%string)).

Definition row_b : Row.t :=
  with_event_datetime
    (Raw.mk 45000 (1 # 2) (fl 1) (fl 1) (Some "SOSP"%string)).

Definition row_c : Row.t :=
  with_event_datetime
    (Raw.mk 45000 (3 # 4) NaN (fl 2) (Some "EOSP"%string)).

Definition record_a : Timeline.t := timeline_record None row_a.

Definition record_b : Timeline.t := timeline_record (Some row_a) row_b.

Definition record_c : Timeline.t := timeline_record (Some row_b) row_c.

(** Day 1, midnight. *)
Definition day_one : Raw.t := Raw.mk 1 0 (fl 0) (fl 0) None.

(* ================================================================= *)
(** ** Grouping and plotting (lines 43-44) *)

(** Row selection by a boolean mask. *)
Fixpoint select {A : Type} (mask : list bool) (col : list A) : list A :=
  match mask, col with
  | b :: mask', x :: col' =>
      if b then x :: select mask' col' else select mask' col'
  | _, _ => []
  end.

Definition select_rows (mask : list bool) (df : DataFrame.t) : DataFrame.t :=
  DataFrame.mk
    (select mask (DataFrame.rows df))
    (select mask (DataFrame.prev_lat df))
    (select mask (DataFrame.prev_lon df))
    (select mask (DataFrame.distance_travelled df))
    (select mask (DataFrame.prev_event df))
    (select mask (DataFrame.prev_event_datetime df))
    (select mask (DataFrame.duration_hours df))
    (select mask (DataFrame.stage df)).

(** The keys of a [groupby] (default [sort=True]): the distinct values of
    the column, in ascending string order. *)
Fixpoint insert_key (k : string) (keys : list string) : list string :=
  match keys with
  | [] => [k]
  | k' :: keys' =>
      if String.leb k k' then k :: keys else k' :: insert_key k keys'
  end.

Definition group_keys (col : list string) : list string :=
  fold_right insert_key [] (nodup string_dec col).

(** [data.groupby(['stage'])], iterated: each key with the rows that
    carry it, in frame order. *)
Definition groupby_stage (df : DataFrame.t) : list (string * DataFrame.t) :=
  map (fun key =>
         (key,
          select_rows
            (map (fun st => String.eqb st key) (DataFrame.stage df)) df))
      (group_keys (DataFrame.stage df)).

(** The arguments of one [plt.plot(x, y, label=...)] call. *)
Module Plot.
Record t : Type := mk {
  x : list Z;
  y : list float;
  label : string
}.
End Plot.

(** The loop of lines 43-44: one call per group, with the group's
    [event_datetime] and [duration_hours] columns. *)
Definition plot_calls (df : DataFrame.t) : list Plot.t :=
  map (fun g =>
         Plot.mk (map Row.event_datetime (DataFrame.rows (snd g)))
                 (DataFrame.duration_hours (snd g))
                 (fst g))
      (groupby_stage df).

(** The script from the loaded log to the plotted lines. *)
Definition script (sort_values : list Row.t -> list Row.t)
    (voyages : list Raw.t) : result (list Plot.t) :=
  data <- pipeline sort_values voyages ;;
  Ok (plot_calls data).

(** The three stage labels, in ascending order. *)
Definition stage_labels : list string :=
  ["At Port"; "At Sea"; "Unknown"]%string.


(** Ascending string order. *)
Definition key_le (a b : string) : Prop := String.leb a b = true.

(** How many cells of [col] hold [key]. *)
Definition count_key (col : list string) (key : string) : nat :=
  List.length (filter (fun st => String.eqb st key) col).

(* ================================================================= *)
(** * Properties of [haversine] *)

Section Haversine.

Local Open Scope R_scope.

(** [cos p1 * cos p2] through the half sum and the half difference. *)
Lemma cos_cos_half (p1 p2 : R) :
  Rtrigo_def.cos p1 * Rtrigo_def.cos p2 =
  Rsqr (Rtrigo_def.cos ((p2 + p1) / 2)) - Rsqr (Rtrigo_def.sin ((p2 - p1) / 2)).
Proof.
  set (u := (p2 - p1) / 2). set (v := (p2 + p1) / 2).
  replace p1 with (v - u) by (unfold u, v; field).
  replace p2 with (v + u) by (unfold u, v; field).
  rewrite cos_minus, cos_plus.
  pose proof (sin2_cos2 u) as Hu. pose proof (sin2_cos2 v) as Hv.
  unfold Rsqr in *.
  replace (Rtrigo_def.cos u * Rtrigo_def.cos u)
    with (1 - Rtrigo_def.sin u * Rtrigo_def.sin u) in * by lra.
  assert (Hs : Rtrigo_def.sin v * Rtrigo_def.sin v
               = 1 - Rtrigo_def.cos v * Rtrigo_def.cos v) by lra.
  transitivity
    (Rtrigo_def.cos v * Rtrigo_def.cos v
       * (1 - Rtrigo_def.sin u * Rtrigo_def.sin u)
     - (Rtrigo_def.sin v * Rtrigo_def.sin v)
       * (Rtrigo_def.sin u * Rtrigo_def.sin u)).
  - pose proof (sin2_cos2 u) as Hu'. unfold Rsqr in Hu'.
    replace (1 - Rtrigo_def.sin u * Rtrigo_def.sin u)
      with (Rtrigo_def.cos u * Rtrigo_def.cos u) by lra.
    ring.
  - rewrite Hs. ring.
Qed.

Lemma Rsqr_sin_bound (x : R) : 0 <= Rsqr (Rtrigo_def.sin x) <= 1.
Proof.
  pose proof (sin2_cos2 x) as H.
  pose proof (Rle_0_sqr (Rtrigo_def.sin x)).
  pose proof (Rle_0_sqr (Rtrigo_def.cos x)).
  lra.
Qed.

Lemma Rsqr_cos_bound (x : R) : 0 <= Rsqr (Rtrigo_def.cos x) <= 1.
Proof.
  pose proof (sin2_cos2 x) as H.
  pose proof (Rle_0_sqr (Rtrigo_def.sin x)).
  pose proof (Rle_0_sqr (Rtrigo_def.cos x)).
  lra.
Qed.

(** The haversine term is a convex combination of two squares. *)
Lemma Spec_a_convex (lat1 lon1 lat2 lon2 : R) :
  let su := Rsqr (Rtrigo_def.sin ((Spec.to_rad lat2 - Spec.to_rad lat1) / 2)) in
  let cv := Rsqr (Rtrigo_def.cos ((Spec.to_rad lat2 + Spec.to_rad lat1) / 2)) in
  let k := Rsqr (Rtrigo_def.sin ((Spec.to_rad lon2 - Spec.to_rad lon1) / 2)) in
  Spec.a lat1 lon1 lat2 lon2 = su * (1 - k) + cv * k.
Proof.
  intros su cv k. unfold Spec.a. cbv zeta.
  rewrite cos_cos_half. fold su cv k. ring.
Qed.

Lemma Spec_a_bounds (lat1 lon1 lat2 lon2 : R) :
  0 <= Spec.a lat1 lon1 lat2 lon2 <= 1.
Proof.
  rewrite Spec_a_convex.
  pose proof (Rsqr_sin_bound ((Spec.to_rad lat2 - Spec.to_rad lat1) / 2)).
  pose proof (Rsqr_cos_bound ((Spec.to_rad lat2 + Spec.to_rad lat1) / 2)).
  pose proof (Rsqr_sin_bound ((Spec.to_rad lon2 - Spec.to_rad lon1) / 2)).
  cbv zeta. nra.
Qed.

(** On numbers, the code's [a] is the spec's. *)
Lemma haversine_a_real (lat1 lon1 lat2 lon2 : R) :
  haversine_a (fl lat1) (fl lon1) (fl lat2) (fl lon2)
  = fl (Spec.a lat1 lon1 lat2 lon2).
Proof.
  unfold haversine_a, Spec.a, Spec.to_rad, math.radians, math.sin, math.cos,
    sq, fl, Rsqr. cbn.
  f_equal.
  replace (lat2 * (PI / 180) - lat1 * (PI / 180))
    with (lat2 * PI / 180 - lat1 * PI / 180) by field.
  replace (lon2 * (PI / 180) - lon1 * (PI / 180))
    with (lon2 * PI / 180 - lon1 * PI / 180) by field.
  replace (lat1 * (PI / 180)) with (lat1 * PI / 180) by field.
  replace (lat2 * (PI / 180)) with (lat2 * PI / 180) by field.
  ring.
Qed.

Lemma sqrt_returns (x : R) :
  0 <= x -> math.sqrt (fl x) = Ok (fl (R_sqrt.sqrt x)).
Proof.
  intros Hx. unfold math.sqrt, fl.
  destruct (Rle_dec 0 x) as [_ | Hn]; [reflexivity | contradiction].
Qed.

Lemma haversine_real (lat1 lon1 lat2 lon2 : R) :
  haversine (fl lat1) (fl lon1) (fl lat2) (fl lon2)
  = Ok (fl (Spec.distance lat1 lon1 lat2 lon2)).
Proof.
  unfold haversine. rewrite haversine_a_real.
  pose proof (Spec_a_bounds lat1 lon1 lat2 lon2) as [H0 H1].
  rewrite (sqrt_returns _ H0). cbn [bind].
  change (fl 1 - fl (Spec.a lat1 lon1 lat2 lon2))%fl
    with (fl (1 - Spec.a lat1 lon1 lat2 lon2)).
  rewrite sqrt_returns by lra. cbn [bind].
  reflexivity.
Qed.

Lemma haversine_a_nan (lat1 lon1 lat2 lon2 : float) :
  lat1 = NaN \/ lon1 = NaN \/ lat2 = NaN \/ lon2 = NaN ->
  haversine_a lat1 lon1 lat2 lon2 = NaN.
Proof.
  intros H. unfold haversine_a, NaN in *.
  destruct lat1, lon1, lat2, lon2; cbn; try reflexivity;
    destruct H as [H | [H | [H | H]]]; discriminate H.
Qed.

Lemma haversine_returns (lat1 lon1 lat2 lon2 : float) :
  haversine lat1 lon1 lat2 lon2 = Ok (haversine_value lat1 lon1 lat2 lon2).
Proof.
  destruct lat1 as [a |], lon1 as [b |], lat2 as [c |], lon2 as [d |];
    try apply haversine_real;
    unfold haversine; rewrite haversine_a_nan by (unfold NaN; tauto);
    reflexivity.
Qed.

(** [atan2] of two non-negative numbers lies in the first quadrant. *)
Lemma atan2R_first_quadrant (y x : R) :
  0 <= y -> 0 <= x -> 0 <= math.atan2R y x <= PI / 2.
Proof.
  intros Hy Hx. unfold math.atan2R.
  pose proof PI_RGT_0 as Hpi.
  destruct (Rlt_dec 0 x) as [Hpos | Hnpos].
  - assert (Hq : 0 <= y / x).
    { apply Rmult_le_pos; [assumption |].
      apply Rlt_le, Rinv_0_lt_compat; assumption. }
    pose proof (atan_bound (y / x)) as [_ Hub].
    split; [| lra].
    destruct Hq as [Hq | Hq].
    + apply Rlt_le. rewrite <- atan_0. apply atan_increasing; assumption.
    + rewrite <- Hq, atan_0. lra.
  - destruct (Rlt_dec x 0) as [Hneg | _]; [lra |].
    destruct (Rlt_dec 0 y) as [_ | _]; [lra |].
    destruct (Rlt_dec y 0) as [Hn | _]; lra.
Qed.

Lemma Spec_c_bounds (lat1 lon1 lat2 lon2 : R) :
  0 <= Spec.c lat1 lon1 lat2 lon2 <= PI.
Proof.
  unfold Spec.c. cbv zeta.
  pose proof (atan2R_first_quadrant
                (R_sqrt.sqrt (Spec.a lat1 lon1 lat2 lon2))
                (R_sqrt.sqrt (1 - Spec.a lat1 lon1 lat2 lon2))
                (sqrt_pos _) (sqrt_pos _)).
  lra.
Qed.

Lemma Spec_a_sym (lat1 lon1 lat2 lon2 : R) :
  Spec.a lat1 lon1 lat2 lon2 = Spec.a lat2 lon2 lat1 lon1.
Proof.
  unfold Spec.a. cbv zeta.
  replace ((Spec.to_rad lat1 - Spec.to_rad lat2) / 2)
    with (- ((Spec.to_rad lat2 - Spec.to_rad lat1) / 2)) by field.
  replace ((Spec.to_rad lon1 - Spec.to_rad lon2) / 2)
    with (- ((Spec.to_rad lon2 - Spec.to_rad lon1) / 2)) by field.
  rewrite !sin_neg, <- !Rsqr_neg. ring.
Qed.

End Haversine.

(* ================================================================= *)
(** * Columns and rows *)

Section Columns.

Context {A B : Type}.

Lemma nth_error_removelast (l : list A) (i : nat) :
  S i < List.length l -> nth_error (removelast l) i = nth_error l i.
Proof.
  revert i. induction l as [| x l IH]; intros i Hi; [inversion Hi |].
  destruct l as [| y l]; [cbn in Hi; lia |].
  destruct i as [| i]; [reflexivity |].
  cbn [removelast nth_error]. apply IH. cbn in *. lia.
Qed.

Lemma nth_error_combine (xs : list A) (ys : list B) (i : nat) (x : A) (y : B) :
  nth_error xs i = Some x -> nth_error ys i = Some y ->
  nth_error (combine xs ys) i = Some (x, y).
Proof.
  revert ys i. induction xs as [| x0 xs IH]; intros ys i Hx Hy.
  - destruct i; discriminate Hx.
  - destruct ys as [| y0 ys]; [destruct i; discriminate Hy |].
    destruct i as [| i]; cbn in *.
    + congruence.
    + apply IH; assumption.
Qed.

Lemma nth_error_zip_with {C : Type} (f : A -> B -> C) xs ys i x y :
  nth_error xs i = Some x -> nth_error ys i = Some y ->
  nth_error (zip_with f xs ys) i = Some (f x y).
Proof.
  intros Hx Hy. unfold zip_with.
  rewrite (map_nth_error _ _ _ (nth_error_combine _ _ _ _ _ Hx Hy)).
  reflexivity.
Qed.

Lemma apply_rows_map (f : A -> result B) (g : A -> B) (rows : list A) :
  (forall r, f r = Ok (g r)) -> apply_rows f rows = Ok (map g rows).
Proof.
  intros Hf. induction rows as [| r rows IH]; [reflexivity |].
  cbn. rewrite Hf, IH. reflexivity.
Qed.

End Columns.

Lemma nth_error_shift_map {A : Type} (f : Row.t -> option A)
    (data : list Row.t) (i : nat) (r : Row.t) :
  nth_error data i = Some r ->
  nth_error (shift (map f data)) i = Some (prev_cell f (pred_row data i)).
Proof.
  intros Hr.
  assert (Hi : i < List.length data) by (apply nth_error_Some; congruence).
  destruct data as [| r0 data]; [cbn in Hi; lia |].
  change (shift (map f (r0 :: data)))
    with (None :: removelast (map f (r0 :: data))).
  destruct i as [| j]; [reflexivity |].
  cbn [nth_error pred_row].
  rewrite nth_error_removelast by (rewrite length_map; exact Hi).
  destruct (nth_error (r0 :: data) j) as [p |] eqn:Hp.
  - rewrite (map_nth_error _ _ _ Hp). reflexivity.
  - apply nth_error_None in Hp. lia.
Qed.

Lemma distance_lambda_returns (row : Row.t * float * float) :
  distance_lambda row = Ok (distance_value row).
Proof.
  destruct row as [[r pla] plo]. unfold distance_lambda, distance_value.
  destruct (notnull pla); [apply haversine_returns | reflexivity].
Qed.

(** On a log with records the model's pipeline returns the closed-form
    frame; on an empty log it raises. *)
Lemma pipeline_returns (sort_values : list Row.t -> list Row.t)
    (voyages : list Raw.t) :
  voyages <> [] ->
  pipeline sort_values voyages
  = Ok (enrich (sort_values (map with_event_datetime voyages))).
Proof.
  intros Hne. destruct voyages as [| v voyages]; [congruence |].
  unfold pipeline, enrich. cbv beta iota zeta.
  rewrite (apply_rows_map _ _ _ distance_lambda_returns).
  reflexivity.
Qed.

Lemma pipeline_Ok (sort_values : list Row.t -> list Row.t)
    (voyages : list Raw.t) (df : DataFrame.t) :
  pipeline sort_values voyages = Ok df ->
  voyages <> []
  /\ df = enrich (sort_values (map with_event_datetime voyages)).
Proof.
  intros Hdf. destruct voyages as [| v voyages]; [discriminate Hdf |].
  split; [discriminate |].
  rewrite pipeline_returns in Hdf by discriminate.
  injection Hdf as <-. reflexivity.
Qed.

Lemma iloc_enrich (data : list Row.t) (i : nat) :
  iloc (enrich data) i
  = option_map (timeline_record (pred_row data i)) (nth_error data i).
Proof.
  unfold iloc, enrich. cbn [DataFrame.rows DataFrame.prev_lat
    DataFrame.prev_lon DataFrame.distance_travelled DataFrame.prev_event
    DataFrame.prev_event_datetime DataFrame.duration_hours DataFrame.stage].
  destruct (nth_error data i) as [r |] eqn:Hr; [| reflexivity].
  unfold float in *.
  pose proof (nth_error_shift_map Row.lat data i r Hr) as Hla.
  pose proof (nth_error_shift_map Row.lon data i r Hr) as Hlo.
  pose proof (nth_error_shift_map Row.event data i r Hr) as Hev.
  pose proof (nth_error_shift_map
                (fun r => Some (Row.event_datetime r)) data i r Hr) as Hdt.
  pose proof (map_nth_error distance_value _ _
                (nth_error_combine _ _ _ _ _
                   (nth_error_combine _ _ _ _ _ Hr Hla) Hlo)) as Hdi.
  pose proof (nth_error_zip_with duration_of _ _ _ _ _
                (map_nth_error Row.event_datetime _ _ Hr) Hdt) as Hdu.
  pose proof (nth_error_zip_with stage_of _ _ _ _ _
                (map_nth_error Row.event _ _ Hr) Hev) as Hst.
  unfold float in *.
  rewrite Hla, Hlo, Hev, Hdt, Hdi, Hdu, Hst.
  reflexivity.
Qed.

(** Rows of the frame are the sorted rows, one for one. *)
Lemma iloc_pipeline sort_values voyages df i :
  pipeline sort_values voyages = Ok df ->
  iloc df i
  = let data := sort_values (map with_event_datetime voyages) in
    option_map (timeline_record (pred_row data i)) (nth_error data i).
Proof.
  intros Hdf. apply pipeline_Ok in Hdf as [_ ->]. apply iloc_enrich.
Qed.

(* ================================================================= *)
(** * Sorting on [event_datetime] *)

Section InsertionSort.

Variable before : Z -> Z -> bool.
Hypothesis before_true : forall a b, before a b = true -> (a <= b)%Z.
Hypothesis before_false : forall a b, before a b = false -> (b <= a)%Z.

Lemma insert_row_perm (x : Row.t) (l : list Row.t) :
  Permutation (x :: l) (insert_row before x l).
Proof.
  induction l as [| y l IH]; cbn; [apply Permutation_refl |].
  destruct (before _ _); [apply Permutation_refl |].
  eapply perm_trans; [apply perm_swap |].
  apply perm_skip, IH.
Qed.

Lemma insert_row_hd (a x : Row.t) (l : list Row.t) :
  by_event_datetime a x -> HdRel by_event_datetime a l ->
  HdRel by_event_datetime a (insert_row before x l).
Proof.
  intros Hax Hal. destruct l as [| y l]; cbn; [constructor; assumption |].
  destruct (before _ _); constructor; [assumption |].
  inversion Hal; assumption.
Qed.

Lemma insert_row_sorted (x : Row.t) (l : list Row.t) :
  Sorted by_event_datetime l ->
  Sorted by_event_datetime (insert_row before x l).
Proof.
  induction 1 as [| y l Hs IH Hhd]; cbn; [repeat constructor |].
  destruct (before _ _) eqn:Hb.
  - constructor; [constructor; assumption |].
    constructor. apply before_true, Hb.
  - constructor; [exact IH |].
    apply insert_row_hd; [apply before_false, Hb | assumption].
Qed.

Lemma insertion_sort_ascending : ascending_sort (insertion_sort before).
Proof.
  split; intros l; induction l as [| x l IH]; cbn.
  - apply perm_nil.
  - eapply perm_trans; [apply perm_skip, IH | apply insert_row_perm].
  - constructor.
  - apply insert_row_sorted, IH.
Qed.

End InsertionSort.

Lemma stable_sort_ascending : ascending_sort stable_sort.
Proof.
  apply insertion_sort_ascending; intros a b H.
  - apply Z.leb_le, H.
  - apply Z.leb_gt in H. lia.
Qed.



(* ================================================================= *)
(** * Stage classification *)

Lemma cell_eq_true (x : option string) (label : string) :
  cell_eq x label = true <-> x = Some label.
Proof.
  destruct x as [e |]; cbn.
  - rewrite String.eqb_eq. split; congruence.
  - split; discriminate.
Qed.

Lemma stage_of_at_sea (e pe : option string) :
  stage_of e pe = "At Sea"%string
  <-> e = Some "SOSP"%string /\ pe = Some "EOSP"%string.
Proof.
  unfold stage_of, np_where.
  destruct (cell_eq e "SOSP") eqn:E1, (cell_eq pe "EOSP") eqn:E2; cbn;
    try (apply cell_eq_true in E1); try (apply cell_eq_true in E2);
    try (split; [intros _; split; assumption | reflexivity]);
    (split;
     [ destruct (cell_eq e "EOSP" && cell_eq pe "SOSP"); discriminate
     | intros [H1 H2]; subst; cbn in *; discriminate ]).
Qed.

Lemma stage_of_at_port (e pe : option string) :
  stage_of e pe = "At Port"%string
  <-> e = Some "EOSP"%string /\ pe = Some "SOSP"%string.
Proof.
  unfold stage_of, np_where.
  destruct (cell_eq e "SOSP" && cell_eq pe "EOSP") eqn:E1.
  - apply andb_true_iff in E1 as [E1 _]. apply cell_eq_true in E1. subst e.
    split; [discriminate | intros [H _]; discriminate H].
  - destruct (cell_eq e "EOSP" && cell_eq pe "SOSP") eqn:E2.
    + apply andb_true_iff in E2 as [H1 H2].
      apply cell_eq_true in H1, H2. tauto.
    + split; [discriminate |].
      intros [-> ->]. discriminate E2.
Qed.

Lemma stage_of_unknown (e pe : option string) :
  ~ (e = Some "SOSP"%string /\ pe = Some "EOSP"%string) ->
  ~ (e = Some "EOSP"%string /\ pe = Some "SOSP"%string) ->
  stage_of e pe = "Unknown"%string.
Proof.
  intros Hsea Hport. unfold stage_of, np_where.
  destruct (cell_eq e "SOSP" && cell_eq pe "EOSP") eqn:E1.
  - apply andb_true_iff in E1 as [H1 H2]. apply cell_eq_true in H1, H2. tauto.
  - destruct (cell_eq e "EOSP" && cell_eq pe "SOSP") eqn:E2; [| reflexivity].
    apply andb_true_iff in E2 as [H1 H2]. apply cell_eq_true in H1, H2. tauto.
Qed.

(** Two neighbouring rows of the frame, traced back to the sorted rows. *)
Lemma iloc_neighbours sort_values voyages df i r p :
  pipeline sort_values voyages = Ok df ->
  iloc df (S i) = Some r -> iloc df i = Some p ->
  exists row prow pp,
    r = timeline_record (Some prow) row /\ p = timeline_record pp prow.
Proof.
  intros Hdf Hr Hp.
  rewrite (iloc_pipeline _ _ _ _ Hdf) in Hr.
  rewrite (iloc_pipeline _ _ _ _ Hdf) in Hp. cbv zeta in Hr, Hp.
  set (data := sort_values (map with_event_datetime voyages)) in *.
  cbn [pred_row] in Hr.
  destruct (nth_error data i) as [prow |] eqn:Hprow; [| discriminate Hp].
  destruct (nth_error data (S i)) as [row |] eqn:Hrow; [| discriminate Hr].
  cbn in Hr, Hp. injection Hr as <-. injection Hp as <-.
  exists row, prow, (pred_row data i). split; reflexivity.
Qed.

(** C1. For every record at index i > 0 of the sorted output, the stage is
    'At Sea' exactly when its event is 'SOSP' and its predecessor's event is
    'EOSP', 'At Port' exactly when its event is 'EOSP' and its predecessor's
    is 'SOSP', and 'Unknown' in every other case; the stage is the function
    [stage_of] of the pair (event, prev_event), and prev_event is the
    predecessor's event. *)
Theorem stage_correctness sort_values voyages df i r p :
  pipeline sort_values voyages = Ok df ->
  iloc df (S i) = Some r -> iloc df i = Some p ->
  (Timeline.stage r = "At Sea"%string
   <-> Timeline.event r = Some "SOSP"%string
       /\ Timeline.event p = Some "EOSP"%string)
  /\ (Timeline.stage r = "At Port"%string
      <-> Timeline.event r = Some "EOSP"%string
          /\ Timeline.event p = Some "SOSP"%string)
  /\ (~ (Timeline.event r = Some "SOSP"%string
         /\ Timeline.event p = Some "EOSP"%string) ->
      ~ (Timeline.event r = Some "EOSP"%string
         /\ Timeline.event p = Some "SOSP"%string) ->
      Timeline.stage r = "Unknown"%string)
  /\ Timeline.prev_event r = Timeline.event p
  /\ Timeline.stage r = stage_of (Timeline.event r) (Timeline.prev_event r).
Proof.
  intros Hdf Hr Hp.
  destruct (iloc_neighbours _ _ _ _ _ _ Hdf Hr Hp) as (row & prow & pp & -> & ->).
  unfold timeline_record.
  cbn [Timeline.stage Timeline.event Timeline.prev_event prev_cell].
  split; [apply stage_of_at_sea |].
  split; [apply stage_of_at_port |].
  split; [apply stage_of_unknown |].
  split; reflexivity.
Qed.

(** The sample log, run. *)
Lemma sample_pipeline : pipeline stable_sort sample_voyages = Ok sample_frame.
Proof. apply pipeline_returns. discriminate. Qed.

Lemma sample_sorted :
  stable_sort (map with_event_datetime sample_voyages) = [row_a; row_b; row_c].
Proof. reflexivity. Qed.

Lemma sample_iloc_0 : iloc sample_frame 0 = Some record_a.
Proof.
  unfold sample_frame. rewrite iloc_enrich, sample_sorted. reflexivity.
Qed.

Lemma sample_iloc_1 : iloc sample_frame 1 = Some record_b.
Proof.
  unfold sample_frame. rewrite iloc_enrich, sample_sorted. reflexivity.
Qed.

Lemma sample_iloc_2 : iloc sample_frame 2 = Some record_c.
Proof.
  unfold sample_frame. rewrite iloc_enrich, sample_sorted. reflexivity.
Qed.

Lemma stage_correctness_witness :
  pipeline stable_sort sample_voyages = Ok sample_frame
  /\ iloc sample_frame 1 = Some record_b
  /\ iloc sample_frame 0 = Some record_a
  /\ (Timeline.stage record_b = "At Sea"%string
      <-> Timeline.event record_b = Some "SOSP"%string
          /\ Timeline.event record_a = Some "EOSP"%string).
Proof.
  split; [exact sample_pipeline |].
  split; [exact sample_iloc_1 |].
  split; [exact sample_iloc_0 |].
  exact (proj1 (stage_correctness stable_sort sample_voyages sample_frame
                  0 record_b record_a
                  sample_pipeline sample_iloc_1 sample_iloc_0)).
Defined.


(* ================================================================= *)
(** * Time stamps *)

Lemma event_datetime_of_eq (r : Raw.t) :
  event_datetime_of r
  = (origin_1899_12_30 + Raw.dateStamp r + to_timedelta (Raw.timeStamp r) D)%Z.
Proof.
  unfold event_datetime_of, to_datetime, unit_ns. lia.
Qed.

(** The code's stamp and the spec's agree on day 0 only. *)
Lemma event_datetime_of_spec_iff (r : Raw.t) :
  event_datetime_of r = spec_event_time r <-> Raw.dateStamp r = 0%Z.
Proof.
  rewrite event_datetime_of_eq. unfold spec_event_time, unit_ns. lia.
Qed.

(** C2. The claim puts the date stamp into the event time as a number of
    days.  The call [pd.to_datetime(data['dateStamp'], origin='1899-12-30')]
    passes no [unit], so the date stamp is counted in nanoseconds: for date
    stamp 1 at time stamp 0 the code's event time is the origin plus one
    nanosecond, where the claim has the origin plus one day. *)
Theorem date_stamp_counted_in_nanoseconds :
  event_datetime_of day_one = (origin_1899_12_30 + 1)%Z
  /\ spec_event_time day_one = (origin_1899_12_30 + 86400000000000)%Z
  /\ event_datetime_of day_one <> spec_event_time day_one.
Proof.
  split; [| split].
  - unfold event_datetime_of, day_one. cbn [Raw.dateStamp Raw.timeStamp].
    vm_compute. reflexivity.
  - unfold spec_event_time, day_one. cbn [Raw.dateStamp Raw.timeStamp].
    vm_compute. reflexivity.
  - rewrite event_datetime_of_spec_iff.
    unfold day_one. cbn [Raw.dateStamp]. discriminate.
Qed.

(* ================================================================= *)
(** * Pairwise enrichment *)

Lemma iloc_record sort_values voyages df i r :
  pipeline sort_values voyages = Ok df -> iloc df i = Some r ->
  let data := sort_values (map with_event_datetime voyages) in
  exists row,
    nth_error data i = Some row /\ r = timeline_record (pred_row data i) row.
Proof.
  intros Hdf Hr. rewrite (iloc_pipeline _ _ _ _ Hdf) in Hr.
  cbv zeta in *.
  destruct (nth_error _ i) as [row |]; [| discriminate Hr].
  injection Hr as <-. exists row. split; reflexivity.
Qed.

(** C6. For every non-empty input, the first record of the frame the
    pipeline returns has distance 0, stage 'Unknown', every prev_* field
    absent and an undefined duration. *)
Theorem first_record_invariant sort_values voyages df :
  ascending_sort sort_values ->
  voyages <> [] ->
  pipeline sort_values voyages = Ok df ->
  exists r,
    iloc df 0 = Some r
    /\ Timeline.distance_travelled r = fl 0
    /\ Timeline.stage r = "Unknown"%string
    /\ Timeline.prev_lat r = NaN
    /\ Timeline.prev_lon r = NaN
    /\ Timeline.prev_event r = None
    /\ Timeline.prev_event_datetime r = None
    /\ Timeline.duration_hours r = NaN.
Proof.
  intros Hsort Hne Hdf. apply pipeline_Ok in Hdf as [_ ->].
  set (data := sort_values (map with_event_datetime voyages)).
  assert (Hlen : List.length data = List.length voyages).
  { unfold data.
    rewrite <- (Permutation_length (sort_values_perm _ Hsort _)).
    apply length_map. }
  destruct data as [| row rest] eqn:Hdata.
  - destruct voyages; [congruence | discriminate Hlen].
  - exists (timeline_record None row).
    split; [rewrite iloc_enrich; reflexivity |].
    unfold timeline_record.
    cbn [Timeline.distance_travelled Timeline.stage Timeline.prev_lat
         Timeline.prev_lon Timeline.prev_event Timeline.prev_event_datetime
         Timeline.duration_hours prev_cell].
    split; [reflexivity |].
    split; [apply stage_of_unknown; intros [_ H]; discriminate H |].
    repeat split; reflexivity.
Qed.

Lemma sample_not_empty : sample_voyages <> [].
Proof. discriminate. Qed.

Lemma first_record_invariant_witness :
  ascending_sort stable_sort
  /\ sample_voyages <> []
  /\ pipeline stable_sort sample_voyages = Ok sample_frame
  /\ exists r,
       iloc sample_frame 0 = Some r
       /\ Timeline.distance_travelled r = fl 0
       /\ Timeline.stage r = "Unknown"%string
       /\ Timeline.prev_lat r = NaN
       /\ Timeline.prev_lon r = NaN
       /\ Timeline.prev_event r = None
       /\ Timeline.prev_event_datetime r = None
       /\ Timeline.duration_hours r = NaN.
Proof.
  split; [exact stable_sort_ascending |].
  split; [exact sample_not_empty |].
  split; [exact sample_pipeline |].
  exact (first_record_invariant stable_sort sample_voyages sample_frame
           stable_sort_ascending sample_not_empty sample_pipeline).
Defined.








(** The guard of the distance lambda reads prev_lat only. *)
Lemma distance_value_cases (r : Row.t) (prev_lat prev_lon : float) :
  (prev_lat = NaN -> distance_value (r, prev_lat, prev_lon) = fl 0)
  /\ (prev_lat <> NaN ->
      Row.lat r = NaN \/ Row.lon r = NaN \/ prev_lon = NaN ->
      distance_value (r, prev_lat, prev_lon) = NaN).
Proof.
  unfold distance_value, haversine_value, NaN. split.
  - intros ->. reflexivity.
  - intros Hp H. destruct prev_lat as [pla |]; [| congruence].
    cbn [notnull].
    destruct (Row.lat r), (Row.lon r), prev_lon; try reflexivity;
      destruct H as [H | [H | H]]; discriminate H.
Qed.

(** C4, as the code has it. The distance is 0 when the predecessor's
    latitude is absent: for the first record and for the record that follows
    one with a missing latitude.  When the predecessor's latitude is present
    and the record's own latitude or longitude, or the predecessor's
    longitude, is absent, the distance is NaN. *)
Theorem distance_null_guard sort_values voyages df i r :
  pipeline sort_values voyages = Ok df ->
  iloc df i = Some r ->
  (Timeline.prev_lat r = NaN -> Timeline.distance_travelled r = fl 0)
  /\ (Timeline.prev_lat r <> NaN ->
      Timeline.lat r = NaN \/ Timeline.lon r = NaN
      \/ Timeline.prev_lon r = NaN ->
      Timeline.distance_travelled r = NaN)
  /\ (forall j p,
        i = S j -> iloc df j = Some p -> Timeline.lat p = NaN ->
        Timeline.distance_travelled r = fl 0).
Proof.
  intros Hdf Hr.
  destruct (iloc_record _ _ _ _ _ Hdf Hr) as (row & Hrow & ->).
  set (data := sort_values (map with_event_datetime voyages)) in *.
  pose proof (distance_value_cases row
                (prev_cell Row.lat (pred_row data i))
                (prev_cell Row.lon (pred_row data i))) as [H0 Hnan].
  split; [exact H0 |]. split; [exact Hnan |].
  intros j p -> Hp Hlat.
  destruct (iloc_record _ _ _ _ _ Hdf Hp) as (prow & Hprow & ->).
  fold data in Hprow. apply H0.
  cbn [pred_row]. rewrite Hprow. exact Hlat.
Qed.

Lemma distance_null_guard_witness :
  pipeline stable_sort sample_voyages = Ok sample_frame
  /\ iloc sample_frame 2 = Some record_c
  /\ Timeline.prev_lat record_c <> NaN
  /\ Timeline.lat record_c = NaN
  /\ Timeline.distance_travelled record_c = NaN.
Proof.
  split; [exact sample_pipeline |].
  split; [exact sample_iloc_2 |].
  split; [discriminate |].
  split; [reflexivity |].
  apply (proj1 (proj2 (distance_null_guard stable_sort sample_voyages
                         sample_frame 2 record_c
                         sample_pipeline sample_iloc_2))).
  - discriminate.
  - left. reflexivity.
Defined.

(** C4, as stated, fails: the third record of the sample log has a
    predecessor and no latitude, and its distance is NaN, not 0. *)
Lemma missing_latitude_distance_is_nan :
  pipeline stable_sort sample_voyages = Ok sample_frame
  /\ iloc sample_frame 2 = Some record_c
  /\ iloc sample_frame 1 = Some record_b
  /\ Timeline.lat record_c = NaN
  /\ Timeline.distance_travelled record_c = NaN
  /\ Timeline.distance_travelled record_c <> fl 0.
Proof.
  split; [exact sample_pipeline |].
  split; [exact sample_iloc_2 |].
  split; [exact sample_iloc_1 |].
  split; [reflexivity |].
  split; [reflexivity | discriminate].
Qed.

(* ================================================================= *)
(** * The geodesic distance *)

Lemma Spec_distance_sym (lat1 lon1 lat2 lon2 : R) :
  Spec.distance lat1 lon1 lat2 lon2 = Spec.distance lat2 lon2 lat1 lon1.
Proof.
  unfold Spec.distance, Spec.c. cbv zeta.
  rewrite (Spec_a_sym lat1 lon1 lat2 lon2). reflexivity.
Qed.

(** C9. [haversine] is symmetric: on points A and B it returns what it
    returns on B and A. *)
Theorem haversine_symmetric (lat1 lon1 lat2 lon2 : float) :
  haversine lat1 lon1 lat2 lon2 = haversine lat2 lon2 lat1 lon1.
Proof.
  rewrite !haversine_returns. f_equal. unfold haversine_value.
  destruct lat1 as [a |], lon1 as [b |], lat2 as [c |], lon2 as [d |];
    try reflexivity.
  f_equal. apply Spec_distance_sym.
Qed.

Lemma Spec_distance_bounds (lat1 lon1 lat2 lon2 : R) :
  (0 <= Spec.distance lat1 lon1 lat2 lon2 <= 6371 * PI)%R.
Proof.
  pose proof (Spec_c_bounds lat1 lon1 lat2 lon2).
  unfold Spec.distance. lra.
Qed.

(* ================================================================= *)
(** * More on [haversine] *)

Lemma atan2R_0_1 : math.atan2R 0 1 = 0%R.
Proof.
  unfold math.atan2R.
  destruct (Rlt_dec 0 1) as [_ | H]; [| exfalso; apply H; lra].
  replace (0 / 1)%R with 0%R by field. apply atan_0.
Qed.

(** X2. The distance from a point to itself is 0. *)
Theorem haversine_same_point (lat lon : R) :
  haversine (fl lat) (fl lon) (fl lat) (fl lon) = Ok (fl 0).
Proof.
  rewrite haversine_real. do 2 f_equal.
  unfold Spec.distance, Spec.c. cbv zeta.
  assert (Ha : Spec.a lat lon lat lon = 0%R).
  { unfold Spec.a. cbv zeta.
    replace ((Spec.to_rad lat - Spec.to_rad lat) / 2)%R with 0%R by field.
    replace ((Spec.to_rad lon - Spec.to_rad lon) / 2)%R with 0%R by field.
    rewrite sin_0. unfold Rsqr. ring. }
  rewrite Ha, sqrt_0.
  replace (1 - 0)%R with 1%R by ring.
  rewrite sqrt_1, atan2R_0_1. ring.
Qed.

(* ================================================================= *)
(** * More on the frame *)

(** X5. A frame the pipeline returns holds one record per input record:
    [iloc] finds a record at exactly the positions below the number of
    input records. *)
Theorem pipeline_keeps_every_record sort_values voyages df :
  ascending_sort sort_values ->
  pipeline sort_values voyages = Ok df ->
  forall i, i < List.length voyages <-> exists r, iloc df i = Some r.
Proof.
  intros Hsort Hdf. apply pipeline_Ok in Hdf as [_ ->].
  set (data := sort_values (map with_event_datetime voyages)).
  assert (Hlen : List.length data = List.length voyages).
  { unfold data.
    rewrite <- (Permutation_length (sort_values_perm _ Hsort _)).
    apply length_map. }
  intros i. rewrite iloc_enrich, <- Hlen. split.
  - intros Hi. apply nth_error_Some in Hi.
    destruct (nth_error data i) as [row |]; [| congruence].
    eexists. reflexivity.
  - intros [r Hr]. apply nth_error_Some.
    destruct (nth_error data i); [discriminate | discriminate Hr].
Qed.

Lemma pipeline_keeps_every_record_witness :
  ascending_sort stable_sort
  /\ pipeline stable_sort sample_voyages = Ok sample_frame
  /\ forall i,
       i < List.length sample_voyages
       <-> exists r, iloc sample_frame i = Some r.
Proof.
  split; [exact stable_sort_ascending |].
  split; [exact sample_pipeline |].
  exact (pipeline_keeps_every_record stable_sort sample_voyages sample_frame
           stable_sort_ascending sample_pipeline).
Defined.

(** X6. Every prev_* cell of a record holds the matching cell of the record
    just before it. *)
Theorem prev_fields_are_predecessor sort_values voyages df i r p :
  pipeline sort_values voyages = Ok df ->
  iloc df (S i) = Some r -> iloc df i = Some p ->
  Timeline.prev_lat r = Timeline.lat p
  /\ Timeline.prev_lon r = Timeline.lon p
  /\ Timeline.prev_event r = Timeline.event p
  /\ Timeline.prev_event_datetime r = Some (Timeline.event_datetime p).
Proof.
  intros Hdf Hr Hp.
  destruct (iloc_neighbours _ _ _ _ _ _ Hdf Hr Hp)
    as (row & prow & pp & -> & ->).
  repeat split; reflexivity.
Qed.

Lemma prev_fields_are_predecessor_witness :
  pipeline stable_sort sample_voyages = Ok sample_frame
  /\ iloc sample_frame 2 = Some record_c
  /\ iloc sample_frame 1 = Some record_b
  /\ Timeline.prev_lat record_c = Timeline.lat record_b
  /\ Timeline.prev_lon record_c = Timeline.lon record_b
  /\ Timeline.prev_event record_c = Timeline.event record_b
  /\ Timeline.prev_event_datetime record_c
     = Some (Timeline.event_datetime record_b).
Proof.
  split; [exact sample_pipeline |].
  split; [exact sample_iloc_2 |].
  split; [exact sample_iloc_1 |].
  exact (prev_fields_are_predecessor stable_sort sample_voyages sample_frame
           1 record_c record_b sample_pipeline sample_iloc_2 sample_iloc_1).
Defined.

(** X7. When the record before has a latitude, the distance of a record is
    what [haversine] returns on its own position and the one before. *)
Theorem distance_is_haversine_to_predecessor sort_values voyages df i r p :
  pipeline sort_values voyages = Ok df ->
  iloc df (S i) = Some r -> iloc df i = Some p ->
  Timeline.lat p <> NaN ->
  haversine (Timeline.lat r) (Timeline.lon r)
    (Timeline.lat p) (Timeline.lon p)
  = Ok (Timeline.distance_travelled r).
Proof.
  intros Hdf Hr Hp Hlat.
  destruct (iloc_neighbours _ _ _ _ _ _ Hdf Hr Hp)
    as (row & prow & pp & -> & ->).
  rewrite haversine_returns. f_equal.
  unfold timeline_record in *.
  cbn [Timeline.lat Timeline.lon Timeline.distance_travelled prev_cell] in *.
  unfold distance_value.
  destruct (Row.lat prow) as [x |]; [reflexivity |].
  exfalso. apply Hlat. reflexivity.
Qed.

Lemma distance_is_haversine_to_predecessor_witness :
  pipeline stable_sort sample_voyages = Ok sample_frame
  /\ iloc sample_frame 1 = Some record_b
  /\ iloc sample_frame 0 = Some record_a
  /\ Timeline.lat record_a <> NaN
  /\ haversine (Timeline.lat record_b) (Timeline.lon record_b)
       (Timeline.lat record_a) (Timeline.lon record_a)
     = Ok (Timeline.distance_travelled record_b).
Proof.
  assert (H : Timeline.lat record_a <> NaN) by discriminate.
  split; [exact sample_pipeline |].
  split; [exact sample_iloc_1 |].
  split; [exact sample_iloc_0 |].
  split; [exact H |].
  exact (distance_is_haversine_to_predecessor stable_sort sample_voyages
           sample_frame 0 record_b record_a
           sample_pipeline sample_iloc_1 sample_iloc_0 H).
Defined.

Lemma haversine_value_bounds (lat1 lon1 lat2 lon2 : float) (d : R) :
  haversine_value lat1 lon1 lat2 lon2 = fl d -> (0 <= d <= 6371 * PI)%R.
Proof.
  unfold haversine_value, fl, NaN.
  destruct lat1, lon1, lat2, lon2; try discriminate.
  intros [= <-]. apply Spec_distance_bounds.
Qed.

(** X8. A distance in the frame that is a number lies between 0 and half the
    circumference, 6371 * pi kilometers. *)
Theorem distance_in_range sort_values voyages df i r d :
  pipeline sort_values voyages = Ok df ->
  iloc df i = Some r ->
  Timeline.distance_travelled r = fl d ->
  (0 <= d <= 6371 * PI)%R.
Proof.
  intros Hdf Hr Hd.
  destruct (iloc_record _ _ _ _ _ Hdf Hr) as (row & _ & ->).
  unfold timeline_record in Hd.
  cbn [Timeline.distance_travelled] in Hd. unfold distance_value in Hd.
  destruct (notnull _).
  - eapply haversine_value_bounds, Hd.
  - injection Hd as <-. pose proof PI_RGT_0. lra.
Qed.

Lemma distance_in_range_witness :
  pipeline stable_sort sample_voyages = Ok sample_frame
  /\ iloc sample_frame 1 = Some record_b
  /\ Timeline.distance_travelled record_b = fl (Spec.distance 1 1 0 0)
  /\ (0 <= Spec.distance 1 1 0 0 <= 6371 * PI)%R.
Proof.
  assert (H : Timeline.distance_travelled record_b
              = fl (Spec.distance 1 1 0 0)) by reflexivity.
  split; [exact sample_pipeline |].
  split; [exact sample_iloc_1 |].
  split; [exact H |].
  exact (distance_in_range stable_sort sample_voyages sample_frame 1
           record_b (Spec.distance 1 1 0 0)
           sample_pipeline sample_iloc_1 H).
Defined.

(** Below a record there is a record. *)
Lemma iloc_before sort_values voyages df j p :
  pipeline sort_values voyages = Ok df ->
  iloc df (S j) = Some p -> exists q, iloc df j = Some q.
Proof.
  intros Hdf Hp.
  rewrite (iloc_pipeline _ _ _ _ Hdf) in Hp.
  rewrite (iloc_pipeline _ _ _ _ Hdf). cbv zeta in *.
  set (data := sort_values (map with_event_datetime voyages)) in *.
  assert (Hlt : S j < List.length data).
  { apply nth_error_Some. destruct (nth_error data (S j)); [discriminate |].
    discriminate Hp. }
  destruct (nth_error data j) as [q |] eqn:Hq; [eexists; reflexivity |].
  apply nth_error_None in Hq. lia.
Qed.

(** X9. The two labelled stages alternate: a record and the one after it are
    never both 'At Sea', and never both 'At Port'. *)
Theorem stages_do_not_repeat sort_values voyages df i r p :
  pipeline sort_values voyages = Ok df ->
  iloc df (S i) = Some r -> iloc df i = Some p ->
  Timeline.stage p <> "Unknown"%string ->
  Timeline.stage r <> Timeline.stage p.
Proof.
  intros Hdf Hr Hp Hknown Heq.
  destruct i as [| j].
  - (* the first record is always Unknown *)
    destruct (iloc_record _ _ _ _ _ Hdf Hp) as (prow & _ & ->).
    apply Hknown. unfold timeline_record. cbn [Timeline.stage pred_row prev_cell].
    apply stage_of_unknown; intros [_ H]; discriminate H.
  - assert (Hq : exists q, iloc df j = Some q)
      by (eapply iloc_before; eassumption).
    destruct Hq as [q Hq].
    destruct (iloc_neighbours _ _ _ _ _ _ Hdf Hr Hp)
      as (row & prow & pp & -> & Hpeq).
    destruct (iloc_neighbours _ _ _ _ _ _ Hdf Hp Hq)
      as (prow' & qrow & qq & Hpeq' & _).
    assert (Hsame : Row.event prow = Row.event prow').
    { rewrite Hpeq in Hpeq'.
      apply (f_equal Timeline.event) in Hpeq'. exact Hpeq'. }
    unfold timeline_record in Heq.
    cbn [Timeline.stage prev_cell] in Heq.
    rewrite Hpeq' in Heq, Hknown.
    unfold timeline_record in Heq, Hknown.
    cbn [Timeline.stage prev_cell] in Heq, Hknown.
    rewrite <- Hsame in Heq, Hknown.
    set (e := Row.event row) in *. set (pe := Row.event prow) in *.
    set (qe := Row.event qrow) in *.
    destruct (string_dec (stage_of pe qe) "At Sea") as [Hs | Hns].
    + rewrite Hs in Heq.
      apply stage_of_at_sea in Hs as [Hpe _].
      apply stage_of_at_sea in Heq as [_ Hpe'].
      rewrite Hpe in Hpe'. discriminate Hpe'.
    + destruct (string_dec (stage_of pe qe) "At Port") as [Hp' | Hnp].
      * rewrite Hp' in Heq.
        apply stage_of_at_port in Hp' as [Hpe _].
        apply stage_of_at_port in Heq as [_ Hpe'].
        rewrite Hpe in Hpe'. discriminate Hpe'.
      * apply Hknown. apply stage_of_unknown; intros H.
        -- apply Hns. apply stage_of_at_sea. exact H.
        -- apply Hnp. apply stage_of_at_port. exact H.
Qed.

Lemma stages_do_not_repeat_witness :
  pipeline stable_sort sample_voyages = Ok sample_frame
  /\ iloc sample_frame 2 = Some record_c
  /\ iloc sample_frame 1 = Some record_b
  /\ Timeline.stage record_b <> "Unknown"%string
  /\ Timeline.stage record_c <> Timeline.stage record_b.
Proof.
  assert (H : Timeline.stage record_b <> "Unknown"%string) by discriminate.
  split; [exact sample_pipeline |].
  split; [exact sample_iloc_2 |].
  split; [exact sample_iloc_1 |].
  split; [exact H |].
  exact (stages_do_not_repeat stable_sort sample_voyages sample_frame 1
           record_c record_b sample_pipeline sample_iloc_2 sample_iloc_1 H).
Defined.

(* ================================================================= *)
(** * Grouping and plotting *)

Section Select.

Context {A : Type}.

Lemma select_map {B : Type} (f : A -> B) (mask : list bool) (col : list A) :
  select mask (map f col) = map f (select mask col).
Proof.
  revert col. induction mask as [| b mask IH]; intros [| x col];
    try reflexivity.
  cbn. destruct b; cbn; rewrite IH; reflexivity.
Qed.

Lemma select_length (mask : list bool) (col : list A) :
  List.length mask = List.length col ->
  List.length (select mask col)
  = List.length (filter (fun b : bool => b) mask).
Proof.
  revert col. induction mask as [| b mask IH]; intros [| x col] H;
    try reflexivity; try discriminate H.
  injection H as H. cbn. destruct b; cbn; rewrite (IH _ H); reflexivity.
Qed.



End Select.

Lemma filter_mask_length (col : list string) (key : string) :
  List.length (filter (fun b : bool => b)
                 (map (fun st => String.eqb st key) col))
  = count_key col key.
Proof.
  unfold count_key. induction col as [| st col IH]; [reflexivity |].
  cbn. destruct (String.eqb st key); cbn; rewrite IH; reflexivity.
Qed.

Lemma length_shift {A : Type} (col : list (option A)) :
  List.length (shift col) = List.length col.
Proof.
  destruct col as [| x col]; [reflexivity |].
  change (shift (x :: col)) with (None :: removelast (x :: col)).
  cbn [List.length]. f_equal.
  revert x. induction col as [| y col IH]; intros x; [reflexivity |].
  change (removelast (x :: y :: col)) with (x :: removelast (y :: col)).
  cbn [List.length]. f_equal. apply IH.
Qed.

Lemma length_zip_with_shift {A B C : Type} (f : A -> option B -> C)
    (xs : list A) (ys : list (option B)) :
  List.length ys = List.length xs ->
  List.length (zip_with f xs (shift ys)) = List.length xs.
Proof.
  intros H. unfold zip_with.
  rewrite length_map, length_combine, length_shift, H. apply Nat.min_id.
Qed.

Lemma enrich_stage_length (data : list Row.t) :
  List.length (DataFrame.stage (enrich data)) = List.length data.
Proof.
  unfold enrich. cbn [DataFrame.stage].
  rewrite length_zip_with_shift; rewrite !length_map; reflexivity.
Qed.


(** The keys of a grouping. *)
Lemma insert_key_perm (k : string) (keys : list string) :
  Permutation (k :: keys) (insert_key k keys).
Proof.
  induction keys as [| k' keys IH]; cbn; [apply Permutation_refl |].
  destruct (String.leb k k'); [apply Permutation_refl |].
  eapply perm_trans; [apply perm_swap | apply perm_skip, IH].
Qed.

Lemma group_keys_perm (col : list string) :
  Permutation (nodup string_dec col) (group_keys col).
Proof.
  unfold group_keys.
  induction (nodup string_dec col) as [| k keys IH]; cbn;
    [apply perm_nil |].
  eapply perm_trans; [apply perm_skip, IH | apply insert_key_perm].
Qed.

Lemma group_keys_In (col : list string) (k : string) :
  In k (group_keys col) <-> In k col.
Proof.
  split; intros H.
  - apply (nodup_In string_dec).
    eapply Permutation_in; [apply Permutation_sym, group_keys_perm | exact H].
  - eapply Permutation_in; [apply group_keys_perm |].
    apply (nodup_In string_dec), H.
Qed.

Lemma group_keys_NoDup (col : list string) : NoDup (group_keys col).
Proof.
  eapply Permutation_NoDup; [apply group_keys_perm | apply NoDup_nodup].
Qed.

Lemma insert_key_sorted (k : string) (keys : list string) :
  Sorted key_le keys -> Sorted key_le (insert_key k keys).
Proof.
  induction 1 as [| k' keys Hs IH Hhd]; cbn; [repeat constructor |].
  destruct (String.leb k k') eqn:Hle.
  - constructor; [constructor; assumption | constructor; exact Hle].
  - constructor; [exact IH |].
    assert (Hk : key_le k' k).
    { destruct (String.leb_total k k') as [H | H]; [congruence | exact H]. }
    destruct keys as [| k'' keys]; cbn; [constructor; exact Hk |].
    destruct (String.leb k k''); constructor; [exact Hk |].
    inversion Hhd; assumption.
Qed.

Lemma group_keys_sorted (col : list string) : Sorted key_le (group_keys col).
Proof.
  unfold group_keys.
  induction (nodup string_dec col) as [| k keys IH]; cbn; [constructor |].
  apply insert_key_sorted, IH.
Qed.

Lemma stage_of_label (e pe : option string) : In (stage_of e pe) stage_labels.
Proof.
  unfold stage_of, np_where, stage_labels.
  destruct (_ && _); [cbn; tauto |].
  destruct (_ && _); cbn; tauto.
Qed.

Lemma enrich_stage_labels (data : list Row.t) (st : string) :
  In st (DataFrame.stage (enrich data)) -> In st stage_labels.
Proof.
  unfold enrich, zip_with. cbn [DataFrame.stage].
  intros H. apply in_map_iff in H as ([e pe] & <- & _).
  apply stage_of_label.
Qed.

Ltac key_facts :=
  repeat match goal with
    | H : NoDup (_ :: _) |- _ =>
        apply NoDup_cons_iff in H; destruct H
    | H : Sorted _ (_ :: _) |- _ =>
        apply Sorted_inv in H; destruct H
    | H : HdRel _ _ (_ :: _) |- _ => apply HdRel_inv in H
    end.

Ltac key_case Hin k :=
  let H := fresh "Hk" in
  assert (H : In k stage_labels) by (apply Hin; cbn; tauto);
  cbn in H; destruct H as [<- | [<- | [<- | []]]].

(** Distinct labels in ascending order are the labels present, in the
    order At Port, At Sea, Unknown. *)
Lemma keys_canonical (l : list string) :
  NoDup l -> (forall k, In k l -> In k stage_labels) -> Sorted key_le l ->
  l = filter (fun k => existsb (String.eqb k) l) stage_labels.
Proof.
  intros Hnd Hin Hs.
  destruct l as [| a [| b [| c [| d l]]]].
  - reflexivity.
  - key_case Hin a; reflexivity.
  - key_case Hin a; key_case Hin b; key_facts;
      try reflexivity;
      try (exfalso; cbn in *; tauto);
      try (exfalso; unfold key_le in *; cbn in *; discriminate).
  - key_case Hin a; key_case Hin b; key_case Hin c; key_facts;
      try reflexivity;
      try (exfalso; cbn in *; tauto);
      try (exfalso; unfold key_le in *; cbn in *; discriminate).
  - exfalso.
    key_case Hin a; key_case Hin b; key_case Hin c; key_case Hin d;
      key_facts; cbn in *; tauto.
Qed.

Lemma existsb_eqb_In (k : string) (l : list string) :
  existsb (String.eqb k) l = true <-> In k l.
Proof.
  rewrite existsb_exists. split.
  - intros (x & Hx & Heq). apply String.eqb_eq in Heq. subst. exact Hx.
  - intros H. exists k. split; [exact H | apply String.eqb_refl].
Qed.

Lemma group_keys_stage (data : list Row.t) :
  group_keys (DataFrame.stage (enrich data))
  = filter (fun k => existsb (String.eqb k) (DataFrame.stage (enrich data)))
      stage_labels.
Proof.
  set (col := DataFrame.stage (enrich data)).
  rewrite (keys_canonical (group_keys col)).
  - apply filter_ext. intros k. apply Bool.eq_iff_eq_true.
    rewrite !existsb_eqb_In. apply group_keys_In.
  - apply group_keys_NoDup.
  - intros k Hk. apply (proj1 (group_keys_In _ _)) in Hk.
    eapply enrich_stage_labels, Hk.
  - apply group_keys_sorted.
Qed.

Lemma plot_calls_labels (df : DataFrame.t) :
  map Plot.label (plot_calls df) = group_keys (DataFrame.stage df).
Proof.
  unfold plot_calls, groupby_stage. rewrite !map_map. cbn.
  apply map_id.
Qed.

Lemma script_returns sort_values voyages :
  voyages <> [] ->
  script sort_values voyages
  = Ok (plot_calls (enrich (sort_values (map with_event_datetime voyages)))).
Proof.
  intros Hne. unfold script. rewrite pipeline_returns by exact Hne.
  reflexivity.
Qed.

Lemma script_Ok sort_values voyages calls :
  script sort_values voyages = Ok calls ->
  voyages <> []
  /\ calls
     = plot_calls (enrich (sort_values (map with_event_datetime voyages))).
Proof.
  intros Hs. destruct voyages as [| v voyages]; [discriminate Hs |].
  split; [discriminate |].
  rewrite script_returns in Hs by discriminate.
  injection Hs as <-. reflexivity.
Qed.

(** X10. The plot has one line per stage that occurs, labelled with that
    stage, in the order At Port, At Sea, Unknown: at most three lines. *)
Theorem plot_labels sort_values voyages df :
  pipeline sort_values voyages = Ok df ->
  script sort_values voyages = Ok (plot_calls df)
  /\ map Plot.label (plot_calls df)
     = filter (fun k => existsb (String.eqb k) (DataFrame.stage df))
         stage_labels.
Proof.
  intros Hdf. split.
  - unfold script. rewrite Hdf. reflexivity.
  - apply pipeline_Ok in Hdf as [_ ->].
    rewrite plot_calls_labels. apply group_keys_stage.
Qed.

Lemma plot_labels_witness :
  pipeline stable_sort sample_voyages = Ok sample_frame
  /\ map Plot.label (plot_calls sample_frame)
     = filter (fun k => existsb (String.eqb k)
                          (DataFrame.stage sample_frame))
         stage_labels.
Proof.
  split; [exact sample_pipeline |].
  exact (proj2 (plot_labels stable_sort sample_voyages sample_frame
                  sample_pipeline)).
Defined.

(** The shape of one plotted line. *)
Lemma plot_call_inv (data : list Row.t) (c : Plot.t) :
  In c (plot_calls (enrich data)) ->
  exists key,
    In key (DataFrame.stage (enrich data))
    /\ let mask := map (fun st => String.eqb st key)
                     (DataFrame.stage (enrich data)) in
       c = Plot.mk (map Row.event_datetime (select mask data))
             (select mask (DataFrame.duration_hours (enrich data)))
             key.
Proof.
  unfold plot_calls, groupby_stage. rewrite map_map.
  intros H. apply in_map_iff in H as (key & <- & Hkey).
  exists key. split; [apply (proj1 (group_keys_In _ _)), Hkey | reflexivity].
Qed.




Lemma sample_script : script stable_sort sample_voyages = Ok (plot_calls sample_frame).
Proof. apply script_returns. discriminate. Qed.



Lemma list_sum_add {A : Type} (f g : A -> nat) (l : list A) :
  list_sum (map (fun k => f k + g k) l)
  = list_sum (map f l) + list_sum (map g l).
Proof.
  unfold list_sum. induction l as [| k l IH]; [reflexivity |].
  cbn [map fold_right]. rewrite IH. lia.
Qed.

Lemma list_sum_indicator (st : string) (keys : list string) :
  NoDup keys -> In st keys ->
  list_sum (map (fun k => if String.eqb st k then 1 else 0) keys) = 1.
Proof.
  induction 1 as [| k keys Hk Hnd IH]; [contradiction |].
  intros [-> | Hin]; cbn.
  - rewrite String.eqb_refl. f_equal.
    clear IH Hnd. induction keys as [| k keys IH]; [reflexivity |].
    cbn. destruct (String.eqb_spec st k) as [-> | _].
    + exfalso. apply Hk. left. reflexivity.
    + apply IH. intros H. apply Hk. right. exact H.
  - destruct (String.eqb_spec st k) as [-> | _]; [contradiction |].
    apply IH, Hin.
Qed.

(** Grouping splits a column: over distinct keys that cover it, the group
    sizes add up to its length. *)
Lemma count_key_total (col keys : list string) :
  NoDup keys -> (forall st, In st col -> In st keys) ->
  list_sum (map (count_key col) keys) = List.length col.
Proof.
  intros Hnd. induction col as [| st col IH]; intros Hcov.
  - clear Hnd Hcov. induction keys as [| k keys IHk]; [reflexivity |].
    exact IHk.
  - rewrite (map_ext (count_key (st :: col))
               (fun k => (if String.eqb st k then 1 else 0)
                         + count_key col k)).
    + rewrite list_sum_add, list_sum_indicator, IH; cbn;
        [reflexivity | | assumption |].
      * intros st' H. apply Hcov. right. exact H.
      * apply Hcov. left. reflexivity.
    + intros k. unfold count_key. cbn.
      destruct (String.eqb st k); reflexivity.
Qed.

(** X12. Every record is plotted once: the lines together have as many points
    as the log has records, and the line of a stage has as many points as
    records carry that stage. *)
Theorem plot_keeps_every_point sort_values voyages df :
  ascending_sort sort_values ->
  pipeline sort_values voyages = Ok df ->
  script sort_values voyages = Ok (plot_calls df)
  /\ list_sum (map (fun c => List.length (Plot.x c)) (plot_calls df))
     = List.length voyages
  /\ forall c, In c (plot_calls df) ->
       List.length (Plot.x c) = count_key (DataFrame.stage df) (Plot.label c).
Proof.
  intros Hsort Hdf.
  split; [unfold script; rewrite Hdf; reflexivity |].
  apply pipeline_Ok in Hdf as [_ ->].
  set (data := sort_values (map with_event_datetime voyages)).
  assert (Hlen : List.length data = List.length voyages).
  { unfold data.
    rewrite <- (Permutation_length (sort_values_perm _ Hsort _)).
    apply length_map. }
  pose proof (enrich_stage_length data) as Hst.
  assert (Hsize : forall c, In c (plot_calls (enrich data)) ->
            List.length (Plot.x c)
            = count_key (DataFrame.stage (enrich data)) (Plot.label c)).
  { intros c Hc. destruct (plot_call_inv data c Hc) as (key & _ & ->).
    cbv zeta. cbn [Plot.x Plot.label].
    rewrite length_map, select_length by (rewrite length_map; congruence).
    apply filter_mask_length. }
  split; [| exact Hsize].
  rewrite (map_ext_in _ (fun c => count_key (DataFrame.stage (enrich data))
                                    (Plot.label c)) _ Hsize).
  rewrite <- (map_map Plot.label (count_key _)), plot_calls_labels.
  rewrite count_key_total; [congruence | apply group_keys_NoDup |].
  intros st H. apply group_keys_In, H.
Qed.

Lemma plot_keeps_every_point_witness :
  ascending_sort stable_sort
  /\ pipeline stable_sort sample_voyages = Ok sample_frame
  /\ list_sum (map (fun c => List.length (Plot.x c))
                 (plot_calls sample_frame))
     = List.length sample_voyages.
Proof.
  split; [exact stable_sort_ascending |].
  split; [exact sample_pipeline |].
  exact (proj1 (proj2 (plot_keeps_every_point stable_sort sample_voyages
                         sample_frame stable_sort_ascending
                         sample_pipeline))).
Defined.

Lemma enrich_head (row : Row.t) (rest : list Row.t) :
  exists stages durations,
    DataFrame.stage (enrich (row :: rest)) = "Unknown"%string :: stages
    /\ DataFrame.duration_hours (enrich (row :: rest)) = NaN :: durations.
Proof.
  unfold enrich, zip_with. cbn [DataFrame.stage DataFrame.duration_hours].
  cbn [map].
  change (shift (Row.event row :: map Row.event rest))
    with (None :: removelast (Row.event row :: map Row.event rest)).
  change (shift (Some (Row.event_datetime row)
                 :: map (fun r => Some (Row.event_datetime r)) rest))
    with (@None Z :: removelast
            (Some (Row.event_datetime row)
             :: map (fun r => Some (Row.event_datetime r)) rest)).
  cbn [combine map fst snd].
  do 2 eexists. split.
  - f_equal. apply stage_of_unknown; intros [_ H]; discriminate H.
  - reflexivity.
Qed.

(** X13. When the script gets as far as plotting, the plot has an
    'Unknown' line, and that line starts at the first record of the
    frame: its first x is that record's event time and its first y is the
    undefined duration. *)
Theorem unknown_line_starts_undefined sort_values voyages df calls :
  ascending_sort sort_values ->
  pipeline sort_values voyages = Ok df ->
  script sort_values voyages = Ok calls ->
  exists r0 c,
    iloc df 0 = Some r0
    /\ In c calls
    /\ Plot.label c = "Unknown"%string
    /\ hd_error (Plot.x c) = Some (Timeline.event_datetime r0)
    /\ hd_error (Plot.y c) = Some NaN.
Proof.
  intros Hsort Hdf Hs.
  apply pipeline_Ok in Hdf as [Hne ->]. apply script_Ok in Hs as [_ ->].
  set (data := sort_values (map with_event_datetime voyages)).
  assert (Hlen : List.length data = List.length voyages).
  { unfold data.
    rewrite <- (Permutation_length (sort_values_perm _ Hsort _)).
    apply length_map. }
  destruct data as [| row rest] eqn:Hdata.
  - destruct voyages; [congruence | discriminate Hlen].
  - destruct (enrich_head row rest) as (stages & durations & Hst & Hdu).
    set (mask := map (fun st => String.eqb st "Unknown")
                   (DataFrame.stage (enrich (row :: rest)))).
    exists (timeline_record None row),
      (Plot.mk (map Row.event_datetime (select mask (row :: rest)))
         (select mask (DataFrame.duration_hours (enrich (row :: rest))))
         "Unknown"%string).
    split; [rewrite iloc_enrich; reflexivity |].
    split.
    { unfold plot_calls, groupby_stage. rewrite map_map.
      apply in_map_iff. exists "Unknown"%string.
      split; [reflexivity |].
      apply group_keys_In. rewrite Hst. left. reflexivity. }
    split; [reflexivity |].
    cbn [Plot.x Plot.y]. unfold mask. rewrite Hst, Hdu.
    split; reflexivity.
Qed.

Lemma unknown_line_starts_undefined_witness :
  ascending_sort stable_sort
  /\ pipeline stable_sort sample_voyages = Ok sample_frame
  /\ script stable_sort sample_voyages = Ok (plot_calls sample_frame)
  /\ exists r0 c,
       iloc sample_frame 0 = Some r0
       /\ In c (plot_calls sample_frame)
       /\ Plot.label c = "Unknown"%string
       /\ hd_error (Plot.x c) = Some (Timeline.event_datetime r0)
       /\ hd_error (Plot.y c) = Some NaN.
Proof.
  split; [exact stable_sort_ascending |].
  split; [exact sample_pipeline |].
  split; [exact sample_script |].
  exact (unknown_line_starts_undefined stable_sort sample_voyages
           sample_frame (plot_calls sample_frame)
           stable_sort_ascending sample_pipeline sample_script).
Defined.


(* ================================================================= *)
(** * [haversine] in binary64, near the antipode *)

(** With the C library's values, [a] comes out one unit in the last place
    above 1 on (82 S, 180 W) and (82 N, 0 E). *)
Lemma B64_a_near_antipode (m : B64.libm) :
  B64.near_antipode_values m ->
  B64.haversine_a m B64.lat_south B64.lon_west B64.lat_north B64.lon_zero
  = Ok B64.a_above_one.
Proof.
  intros (Hs & Hc & Hc' & Hs90 & Hp & Hp1).
  vm_compute in Hs, Hc, Hc', Hs90, Hp, Hp1.
  vm_compute. rewrite Hs, Hc, Hc', Hs90.
  vm_compute. rewrite Hp, Hp1.
  vm_compute. reflexivity.
Qed.

Lemma B64_a_above_one_gt : PrimFloat.ltb PrimFloat.one B64.a_above_one = true.
Proof. vm_compute. reflexivity. Qed.

(** [1 - a] is negative there, and [math.sqrt] refuses it. *)
Lemma B64_haversine_near_antipode (m : B64.libm) :
  B64.near_antipode_values m ->
  B64.haversine m B64.lat_south B64.lon_west B64.lat_north B64.lon_zero
  = ValueError.
Proof.
  intros H. unfold B64.haversine.
  rewrite (B64_a_near_antipode m H).
  vm_compute. reflexivity.
Qed.

Lemma libm_near_antipode_values :
  B64.near_antipode_values B64.libm_near_antipode.
Proof.
  unfold B64.near_antipode_values.
  repeat split; vm_compute; reflexivity.
Qed.

(** C5. The claim has [haversine] return R * c on every two coordinate
    pairs.  On (82 S, 180 W) and (82 N, 0 E), with the correctly rounded
    values of sin, cos and pow that the C library returns, binary64
    rounding makes a exceed 1, so 1 - a is negative and the [math.sqrt] of
    line 23 raises [ValueError]: no distance is returned. *)
Theorem haversine_raises_near_antipode (m : B64.libm) :
  B64.near_antipode_values m ->
  B64.haversine m B64.lat_south B64.lon_west B64.lat_north B64.lon_zero
  = ValueError.
Proof.
  intros H. apply B64_haversine_near_antipode. exact H.
Qed.

Lemma haversine_raises_near_antipode_witness :
  B64.near_antipode_values B64.libm_near_antipode
  /\ B64.haversine B64.libm_near_antipode
       B64.lat_south B64.lon_west B64.lat_north B64.lon_zero
     = ValueError.
Proof.
  split; [exact libm_near_antipode_values |].
  exact (haversine_raises_near_antipode B64.libm_near_antipode
           libm_near_antipode_values).
Defined.

(** C10. The claim bounds a by [0, 1] and the distance by [0, 6371 pi] for
    latitudes in [-90, 90].  On (82 S, 180 W) and (82 N, 0 E), latitudes
    inside that range, the code's a is 1.0000000000000002, above 1, and no
    distance is returned. *)
Theorem haversine_a_exceeds_one (m : B64.libm) :
  B64.near_antipode_values m ->
  B64.haversine_a m B64.lat_south B64.lon_west B64.lat_north B64.lon_zero
  = Ok B64.a_above_one
  /\ PrimFloat.ltb PrimFloat.one B64.a_above_one = true
  /\ forall d,
       B64.haversine m B64.lat_south B64.lon_west B64.lat_north B64.lon_zero
       <> Ok d.
Proof.
  intros H.
  split; [apply B64_a_near_antipode, H |].
  split; [exact B64_a_above_one_gt |].
  intros d Hd. rewrite (B64_haversine_near_antipode m H) in Hd.
  discriminate Hd.
Qed.

Lemma haversine_a_exceeds_one_witness :
  B64.near_antipode_values B64.libm_near_antipode
  /\ B64.haversine_a B64.libm_near_antipode
       B64.lat_south B64.lon_west B64.lat_north B64.lon_zero
     = Ok B64.a_above_one
  /\ PrimFloat.ltb PrimFloat.one B64.a_above_one = true.
Proof.
  split; [exact libm_near_antipode_values |].
  pose proof (haversine_a_exceeds_one B64.libm_near_antipode
                libm_near_antipode_values) as [Ha [Hgt _]].
  split; [exact Ha | exact Hgt].
Defined.
